(** * puzzle_processing: locating the puzzle grid and isolating a cell's digit

    A shallow embedding of [modules/puzzles/puzzle_processing.py]
    ([find_puzzle], [extract_digit], [PuzzleNotFoundError]) and the
    properties its specification states about it.

    The two functions are sequences of calls into OpenCV, imutils and
    scikit-image.  The library routines whose result the code only passes
    on or compares (colour conversion, blur, adaptive threshold, contour
    tracing, areas, perimeters, polygon approximation, rasterisation,
    the perspective warp, Otsu's level, component labelling) are the
    fields of [cv_library]; everything holds for every such library.  The
    routines whose arithmetic decides a property (binarisation against a
    level, clearing of labelled pixels, painting, masked AND, the up-right
    bounding rectangle, float division and comparison) are written out. *)

From Stdlib Require Import ZArith QArith Uint63 PrimFloat Sorted Lia.
From stdpp Require Import base list.

Local Open Scope Z_scope.
#[local] Set Warnings "-inexact-float".

(** ** Data *)

(** A contour is the ordered sequence of its integer points (an
    [N x 1 x 2] int32 array in the Python binding). *)
Abbreviation point := (Z * Z)%type.
Abbreviation contour := (list point).

(** Raster images: rows of pixels.  A grayscale image or mask has one
    uint8 channel, a frame has three (B, G, R). *)
Abbreviation image P := (list (list P)).
Abbreviation gray := (image Z).
Abbreviation bgr := (Z * Z * Z)%type.
Abbreviation Frame := (image bgr).

Definition pixel_at (img : gray) (r c : nat) : Z :=
  default 0 (img !! r ≫= λ row, row !! c).

(** Every pixel of the image satisfies [P]. *)
Definition all_pixels {A} (P : A → Prop) (img : image A) : Prop :=
  Forall (Forall P) img.

(** The values a Binary Mask may hold. *)
Definition binary_pixel (p : Z) : Prop := p = 0 ∨ p = 255.
Definition BinaryMask (img : gray) : Prop := all_pixels binary_pixel img.

(** Flags of the library calls, as the source names them. *)
Inductive color_code := COLOR_BGR2GRAY.
Inductive adaptive_method := ADAPTIVE_THRESH_MEAN_C | ADAPTIVE_THRESH_GAUSSIAN_C.
Inductive retrieval_mode := RETR_EXTERNAL | RETR_LIST | RETR_CCOMP | RETR_TREE.
Inductive approximation_mode := CHAIN_APPROX_NONE | CHAIN_APPROX_SIMPLE.

Definition THRESH_BINARY : Z := 0.
Definition THRESH_BINARY_INV : Z := 1.
Definition THRESH_TRUNC : Z := 2.
Definition THRESH_TOZERO : Z := 3.
Definition THRESH_TOZERO_INV : Z := 4.
Definition THRESH_OTSU : Z := 8.

(** ** Exceptions and the caller's array

    A call either returns a value or raises; the array object the caller
    passed in is threaded through, so that drawing on it is visible. *)
Inductive exception := PuzzleNotFoundError | ZeroDivisionError | ValueError.

Inductive outcome (A : Type) :=
  | Return (a : A)
  | Raise (e : exception).
Arguments Return {A} a.
Arguments Raise {A} e.

Definition M (S A : Type) : Type := S → outcome A * S.

Global Instance M_ret {S} : MRet (M S) := λ A a s, (Return a, s).
Global Instance M_bind {S} : MBind (M S) := λ A B k m s,
  match m s with
  | (Return a, s') => k a s'
  | (Raise e, s') => (Raise e, s')
  end.

Definition raise {S A} (e : exception) : M S A := λ s, (Raise e, s).
Definition lift {S A} (o : outcome A) : M S A := λ s, (o, s).
Definition read {S} : M S S := λ s, (Return s, s).
Definition modify {S} (f : S → S) : M S () := λ s, (Return (), f s).

(** ** Python built-ins the source uses *)

(** Areas are compared with each other and nothing else: a float area is
    taken as the rational it denotes ([contourArea] returns no NaN). *)
Definition Qlt_bool (x y : Q) : bool := negb (Qle_bool y x).

(** [sorted(l, key=key, reverse=True)]: descending keys; the sort is
    stable, so elements of equal key keep the order they had in [l]. *)
Fixpoint insert_desc {A} (key : A → Q) (x : A) (l : list A) : list A :=
  match l with
  | [] => [x]
  | y :: l' => if Qlt_bool (key x) (key y) then y :: insert_desc key x l'
               else x :: y :: l'
  end.

Definition sorted_reverse {A} (key : A → Q) (l : list A) : list A :=
  foldr (insert_desc key) [] l.

(** [max(l, key=key)]: the first element whose key no other exceeds;
    [ValueError] on an empty sequence. *)
Fixpoint max_from {A} (key : A → Q) (best : A) (l : list A) : A :=
  match l with
  | [] => best
  | x :: l' => max_from key (if Qlt_bool (key best) (key x) then x else best) l'
  end.

Definition py_max {A} (key : A → Q) (l : list A) : outcome A :=
  match l with
  | [] => Raise ValueError
  | x :: l' => Return (max_from key x l')
  end.

(** [float(n)] for an int of at most 63 bits (rectangle sides are C ints). *)
Definition float_of_int (n : Z) : float :=
  if n <? 0 then PrimFloat.opp (PrimFloat.of_uint63 (Uint63.of_Z (- n)))
  else PrimFloat.of_uint63 (Uint63.of_Z n).

(** [w / float(h)]: binary64 division, [ZeroDivisionError] when the
    divisor is zero; [float(h)] is zero exactly when the int [h] is. *)
Definition truediv (w h : Z) : outcome float :=
  if h =? 0 then Raise ZeroDivisionError
  else Return (PrimFloat.div (float_of_int w) (float_of_int h)).

(** ** The image-processing library *)

Record cv_library := {
  (** [cv2.cvtColor(frame, code)]: a new single-channel array. *)
  cvtColor : Frame → color_code → gray;
  (** [cv2.GaussianBlur(src, ksize, sigmaX)]. *)
  GaussianBlur : gray → Z * Z → Z → gray;
  (** [cv2.adaptiveThreshold(src, maxValue, method, type, blockSize, C)]. *)
  adaptiveThreshold : gray → Z → adaptive_method → Z → Z → Z → gray;
  (** [imutils.grab_contours(cv2.findContours(image, mode, method))]:
      the list of contours of the binary image. *)
  findContours : gray → retrieval_mode → approximation_mode → list contour;
  (** [cv2.contourArea(c)]. *)
  contourArea : contour → Q;
  (** [cv2.arcLength(c, closed)]. *)
  arcLength : contour → bool → float;
  (** [cv2.approxPolyDP(c, epsilon, closed)]. *)
  approxPolyDP : contour → float → bool → contour;
  (** The pixels (row, column) [cv2.drawContours] paints for the given
      contours, contour index and thickness (negative: filled). *)
  contour_raster : list contour → Z → Z → nat → nat → bool;
  (** [imutils.perspective.four_point_transform(image, pts)]. *)
  four_point_transform : gray → list point → gray;
  (** The level Otsu's method selects for an image. *)
  otsu_level : gray → Z;
  (** Whether the pixel (row, column) lies in a connected component that
      [skimage.measure.label] finds on the image border. *)
  border_component : gray → nat → nat → bool;
}.

Section Library.
Context (L : cv_library).

(** [cv2.bitwise_not] on uint8. *)
Definition bitwise_not (src : gray) : gray :=
  (λ row : list Z, (λ p, Z.lxor p 255) <$> row) <$> src.

(** [cv2.threshold(src, thresh, maxval, type)]: the pair (level used,
    thresholded image).  With [THRESH_OTSU] set the level is Otsu's and
    [thresh] is ignored. *)
Definition threshold_pixel (type level maxval p : Z) : Z :=
  let above := level <? p in
  match Z.land type 7 with
  | 0 => if above then maxval else 0
  | 1 => if above then 0 else maxval
  | 2 => if above then level else p
  | 3 => if above then p else 0
  | _ => if above then 0 else p
  end.

Definition threshold (src : gray) (thresh maxval type : Z) : Z * gray :=
  let level := if Z.testbit type 3 then otsu_level L src else thresh in
  (level, (λ row : list Z, threshold_pixel type level maxval <$> row) <$> src).

(** [skimage.segmentation.clear_border(labels)]: a copy in which every
    pixel of a component found on the border is set to the background
    value 0. *)
Definition clear_border (labels : gray) : gray :=
  imap (λ r row, imap (λ c p, if border_component L labels r c then 0 else p) row)
       labels.

(** [np.zeros(shape, dtype="uint8")] and [.shape] of a 2-d array. *)
Definition shape {P} (img : image P) : nat * nat :=
  (length img, length (default [] (head img))).
Definition np_zeros (sh : nat * nat) : gray :=
  replicate sh.1 (replicate sh.2 0).

(** [cv2.drawContours(image, contours, contourIdx, color, thickness)]
    paints in place: the pixels of the raster take [color], the others
    keep their value, and the array keeps its shape. *)
Definition drawContours {P} (img : image P) (contours : list contour)
    (contourIdx : Z) (color : P) (thickness : Z) : image P :=
  imap (λ r row,
          imap (λ c p, if contour_raster L contours contourIdx thickness r c
                       then color else p) row)
       img.

(** [cv2.bitwise_and(src1, src2, mask=mask)] into a fresh array: the AND
    where the mask is non-zero, 0 elsewhere. *)
Definition bitwise_and (src1 src2 mask : gray) : gray :=
  imap (λ r row,
          imap (λ c p, if pixel_at mask r c =? 0 then 0
                       else Z.land p (pixel_at src2 r c)) row)
       src1.

(** [cv2.boundingRect] of a point set: the up-right rectangle
    (x, y, w, h) with [w = max x - min x + 1], [h = max y - min y + 1]. *)
Definition boundingRect (pts : contour) : Z * Z * Z * Z :=
  match pts with
  | [] => (0, 0, 0, 0)
  | (x0, y0) :: rest =>
      let xmin := foldr Z.min x0 (fst <$> rest) in
      let xmax := foldr Z.max x0 (fst <$> rest) in
      let ymin := foldr Z.min y0 (snd <$> rest) in
      let ymax := foldr Z.max y0 (snd <$> rest) in
      (xmin, ymin, xmax - xmin + 1, ymax - ymin + 1)
  end.

(** [a.reshape(4, 2)] of the [4 x 1 x 2] array of an approximation with
    four points: the same four points in the same order. *)
Definition reshape_4_2 (a : contour) : list point := a.

(** ** [find_puzzle] *)

(** The loop over the sorted contours (lines 51-72).  [break] leaves the
    loop with the approximation just accepted; otherwise the loop goes on
    with the remaining contours. *)
Fixpoint find_puzzle_loop (cnts : list contour) (puzzle_cnt : option contour)
    : M Frame (option contour) :=
  match cnts with
  | [] => mret puzzle_cnt
  | c :: cnts' =>
      let peri := arcLength L c true in
      let approx := approxPolyDP L c (0.01 * peri)%float true in
      if (length approx =? 4)%nat then
        let '(x, y, w, h) := boundingRect approx in
        aspectRatio ← lift (truediv w h);
        let keepDims := (w >? 45) && (h >? 45) in
        let keepAspectRatio :=
          PrimFloat.leb 0.8 aspectRatio && PrimFloat.leb aspectRatio 1.2 in
        if keepDims && keepAspectRatio then
          let puzzle_cnt := Some approx in
          modify (λ frame, drawContours frame [approx] (-1) (0, 255, 0) 2);;
          mret puzzle_cnt
        else find_puzzle_loop cnts' puzzle_cnt
      else find_puzzle_loop cnts' puzzle_cnt
  end.

(** Lines 31-80.  [gray] is an array of its own, and [findContours] is
    handed a copy of [thresh]: the drawing on [frame] at the end of the
    loop reaches neither. *)
Definition find_puzzle : M Frame gray :=
  frame ← read;
  let gray := cvtColor L frame COLOR_BGR2GRAY in
  let blurred := GaussianBlur L gray (7, 7) 3 in
  let thresh :=
    adaptiveThreshold L blurred 255 ADAPTIVE_THRESH_GAUSSIAN_C THRESH_BINARY 11 2 in
  let thresh := bitwise_not thresh in
  let cnts := findContours L thresh RETR_EXTERNAL CHAIN_APPROX_SIMPLE in
  let cnts := sorted_reverse (contourArea L) cnts in
  let puzzle_cnt := None in
  puzzle_cnt ← find_puzzle_loop cnts puzzle_cnt;
  match puzzle_cnt with
  | None => raise PuzzleNotFoundError
  | Some puzzle_cnt =>
      let transformed := four_point_transform L gray (reshape_4_2 puzzle_cnt) in
      mret transformed
  end.

(** ** [extract_digit] *)

(** Lines 90-117.  [cv2.threshold] and [clear_border] return new arrays,
    the mask is a local array: nothing is written to [cell]. *)
Definition extract_digit : M gray (option gray * bool) :=
  cell ← read;
  let empty := true in
  let thresh := (threshold cell 0 255 (Z.lor THRESH_BINARY_INV THRESH_OTSU)).2 in
  let thresh := clear_border thresh in
  let cnts := findContours L thresh RETR_EXTERNAL CHAIN_APPROX_SIMPLE in
  if (length cnts =? 0)%nat then mret (None, empty)
  else
    let empty := false in
    c ← lift (py_max (contourArea L) cnts);
    let mask := np_zeros (shape thresh) in
    let mask := drawContours mask [c] (-1) 255 (-1) in
    let digit := bitwise_and thresh thresh mask in
    mret (Some digit, empty).

(** ** The conditions of the loop, contour by contour *)

(** The polygon approximation of a contour, with a tolerance of 0.01
    times its perimeter (lines 53-54). *)
Definition approx_of (c : contour) : contour :=
  approxPolyDP L c (0.01 * arcLength L c true)%float true.

(** Width and height of the bounding rectangle of the approximation. *)
Definition bbox_size (c : contour) : Z * Z :=
  let '(_, _, w, h) := boundingRect (approx_of c) in (w, h).

Definition four_vertices (c : contour) : bool :=
  (length (approx_of c) =? 4)%nat.

Definition keepDims (c : contour) : bool :=
  (45 <? (bbox_size c).1) && (45 <? (bbox_size c).2).

(** The test [aspectRatio >= 0.8 and aspectRatio <= 1.2] on the binary64
    quotient of two ints. *)
Definition aspect_in_band (w h : Z) : bool :=
  let aspectRatio := PrimFloat.div (float_of_int w) (float_of_int h) in
  PrimFloat.leb 0.8 aspectRatio && PrimFloat.leb aspectRatio 1.2.

Definition keepAspectRatio (c : contour) : bool :=
  aspect_in_band (bbox_size c).1 (bbox_size c).2.

Definition qualifies (c : contour) : bool :=
  four_vertices c && keepDims c && keepAspectRatio c.

(** The contours the loop of [find_puzzle] runs over, before and after
    sorting, and the image they are warped from. *)
Definition gray_of (frame : Frame) : gray := cvtColor L frame COLOR_BGR2GRAY.

Definition found_contours (frame : Frame) : list contour :=
  findContours L
    (bitwise_not
       (adaptiveThreshold L (GaussianBlur L (gray_of frame) (7, 7) 3) 255
          ADAPTIVE_THRESH_GAUSSIAN_C THRESH_BINARY 11 2))
    RETR_EXTERNAL CHAIN_APPROX_SIMPLE.

Definition sorted_contours (frame : Frame) : list contour :=
  sorted_reverse (contourArea L) (found_contours frame).

(** What the accepted approximation leaves on the caller's frame. *)
Definition drawn (frame : Frame) (c : contour) : Frame :=
  drawContours frame [approx_of c] (-1) (0, 255, 0) 2.

(** The image [extract_digit] searches for contours, and what it finds. *)
Definition cell_thresh (cell : gray) : gray :=
  clear_border (threshold cell 0 255 (Z.lor THRESH_BINARY_INV THRESH_OTSU)).2.

Definition cell_contours (cell : gray) : list contour :=
  findContours L (cell_thresh cell) RETR_EXTERNAL CHAIN_APPROX_SIMPLE.

Definition filled_mask (cell : gray) (c : contour) : gray :=
  drawContours (np_zeros (shape (cell_thresh cell))) [c] (-1) 255 (-1).

End Library.

(** An image is a matrix: all its rows have the same length. *)
Definition rectangular {P} (img : image P) : Prop :=
  Forall (λ row, length row = (shape img).2) img.

(** Two images of the same dimensions: as many rows, each as long. *)
Definition same_dims {A B} (a : image A) (b : image B) : Prop :=
  Forall2 (λ ra rb, length ra = length rb) a b.

(** A blank cell: every pixel has the same value [v]. *)
Definition blank (v : Z) (cell : gray) : Prop := all_pixels (eq v) cell.

(** Decreasing keys along a list. *)
Definition descending {A} (key : A → Q) (l : list A) : Prop :=
  StronglySorted (λ a b, (key b <= key a)%Q) l.

(** ** What the library documents about blank images

    Two facts of the routines behind [cv_library], used for blank cells
    only: an image without foreground has no contour, and in a uniform
    non-zero image every pixel belongs to the one component, which lies
    on the border. *)
Definition no_foreground_no_contours (L : cv_library) : Prop :=
  ∀ img mode method,
    all_pixels (eq 0) img → findContours L img mode method = [].

Definition uniform_component_on_border (L : cv_library) : Prop :=
  ∀ img v r row k p,
    v ≠ 0 → rectangular img → all_pixels (eq v) img →
    img !! r = Some row → row !! k = Some p →
    border_component L img r k = true.

(** ** A small library instance to run the functions on

    Enough of a library to evaluate the two functions on concrete
    arrays: luminance by integer weights, no blur, a fixed level in place
    of the adaptive one, one contour (the corners of the bounding box of
    the foreground, clockwise from the top left) per image, Green's
    formula for areas, the Euclidean perimeter, polygons left as they
    are, rasters and warps on bounding boxes, the mid-range level for
    Otsu, and border components grown from the border pixels. *)
Module Toy.

Definition luminance (p : bgr) : Z :=
  let '(b, g, r) := p in (114 * b + 587 * g + 299 * r + 500) / 1000.

Definition cvtColor (frame : Frame) (_ : color_code) : gray :=
  (λ row : list bgr, luminance <$> row) <$> frame.

Definition GaussianBlur (src : gray) (_ : Z * Z) (_ : Z) : gray := src.

Definition adaptiveThreshold (src : gray) (maxValue : Z) (_ : adaptive_method)
    (_ : Z) (_ : Z) (_ : Z) : gray :=
  (λ row : list Z, (λ p, if 127 <? p then maxValue else 0) <$> row) <$> src.

(** Coordinates (x, y) = (column, row) of the non-zero pixels. *)
Definition foreground (img : gray) : list point :=
  mjoin (imap (λ r row,
                 omap id (imap (λ c p, if p =? 0 then None
                                       else Some (Z.of_nat c, Z.of_nat r)) row))
              img).

Definition box_corners (pts : list point) : contour :=
  match pts with
  | [] => []
  | _ =>
      let '(x, y, w, h) := boundingRect pts in
      [(x, y); (x + w - 1, y); (x + w - 1, y + h - 1); (x, y + h - 1)]
  end.

Definition findContours (img : gray) (_ : retrieval_mode)
    (_ : approximation_mode) : list contour :=
  match foreground img with
  | [] => []
  | pts => [box_corners pts]
  end.

(** Twice the signed area of a closed polygon. *)
Fixpoint shoelace (first prev : point) (rest : list point) : Z :=
  match rest with
  | [] => prev.1 * first.2 - prev.2 * first.1
  | p :: rest' => prev.1 * p.2 - prev.2 * p.1 + shoelace first p rest'
  end.

Definition contourArea (c : contour) : Q :=
  match c with
  | [] => 0
  | p :: rest => Qmake (Z.abs (shoelace p p rest)) 2
  end.

Definition dist (p q : point) : float :=
  let dx := float_of_int (q.1 - p.1) in
  let dy := float_of_int (q.2 - p.2) in
  PrimFloat.sqrt (dx * dx + dy * dy).

Fixpoint path_length (first prev : point) (rest : list point) (closed : bool)
    : float :=
  match rest with
  | [] => if closed then dist prev first else 0%float
  | p :: rest' => (dist prev p + path_length first p rest' closed)%float
  end.

Definition arcLength (c : contour) (closed : bool) : float :=
  match c with
  | [] => 0%float
  | p :: rest => path_length p p rest closed
  end.

Definition approxPolyDP (c : contour) (_ : float) (_ : bool) : contour := c.

Definition in_box (b : Z * Z * Z * Z) (r c : nat) : bool :=
  let '(x, y, w, h) := b in
  (x <=? Z.of_nat c) && (Z.of_nat c <? x + w) &&
  (y <=? Z.of_nat r) && (Z.of_nat r <? y + h).

Definition on_box_edge (b : Z * Z * Z * Z) (r c : nat) : bool :=
  let '(x, y, w, h) := b in
  in_box b r c &&
  ((Z.of_nat c =? x) || (Z.of_nat c =? x + w - 1) ||
   (Z.of_nat r =? y) || (Z.of_nat r =? y + h - 1)).

Definition contour_raster (cs : list contour) (_ : Z) (thickness : Z)
    (r c : nat) : bool :=
  existsb (λ k, if thickness <? 0 then in_box (boundingRect k) r c
                else on_box_edge (boundingRect k) r c) cs.

Definition four_point_transform (img : gray) (pts : list point) : gray :=
  let '(x, y, w, h) := boundingRect pts in
  (λ row : list Z, take (Z.to_nat w) (drop (Z.to_nat x) row))
    <$> take (Z.to_nat h) (drop (Z.to_nat y) img).

Definition otsu_level (img : gray) : Z :=
  match mjoin img with
  | [] => 0
  | p :: ps => (foldr Z.min p ps + foldr Z.max p ps) / 2
  end.

(** Border components: the non-zero border pixels, grown to the
    8-neighbours of equal value until every pixel has had its turn. *)
Definition marked (marks : list (list bool)) (r c : nat) : bool :=
  default false (marks !! r ≫= λ row, row !! c).

Definition on_border (img : gray) (r c : nat) : bool :=
  (r =? 0)%nat || (S r =? length img)%nat ||
  (c =? 0)%nat || (S c =? length (default [] (img !! r)))%nat.

Definition neighbours (r c : nat) : list (nat * nat) :=
  [(pred r, pred c); (pred r, c); (pred r, S c);
   (r, pred c); (r, S c);
   (S r, pred c); (S r, c); (S r, S c)].

Definition grow (img : gray) (marks : list (list bool)) : list (list bool) :=
  imap (λ r row,
          imap (λ c p,
                  marked marks r c ||
                  (negb (p =? 0) &&
                   existsb (λ n, marked marks n.1 n.2 && (pixel_at img n.1 n.2 =? p))
                           (neighbours r c)))
               row)
       img.

Definition border_seed (img : gray) : list (list bool) :=
  imap (λ r row, imap (λ c p, negb (p =? 0) && on_border img r c) row) img.

Definition border_component (img : gray) (r c : nat) : bool :=
  marked (Nat.iter (length (mjoin img)) (grow img) (border_seed img)) r c.

Definition lib : cv_library :=
  Build_cv_library cvtColor GaussianBlur adaptiveThreshold findContours
    contourArea arcLength approxPolyDP contour_raster four_point_transform
    otsu_level border_component.

(** The same library, reporting a given list of contours whatever the
    image: several contours per frame without tracing them. *)
Definition reporting (cs : list contour) : cv_library :=
  Build_cv_library cvtColor GaussianBlur adaptiveThreshold (λ _ _ _, cs)
    contourArea arcLength approxPolyDP contour_raster four_point_transform
    otsu_level border_component.

End Toy.

(** ** Frames and cells to run the functions on *)
Module Examples.

(** The corners of an axis-parallel rectangle of [w] by [h] pixels,
    clockwise from the top left corner (x, y). *)
Definition rect (x y w h : Z) : contour :=
  [(x, y); (x + w - 1, y); (x + w - 1, y + h - 1); (x, y + h - 1)].

Definition white : bgr := (255, 255, 255).
Definition black : bgr := (0, 0, 0).

(** A 4 x 4 frame of one colour. *)
Definition plain_frame : Frame := replicate 4 (replicate 4 (9, 9, 9)).

(** A white frame of 14 x 14 pixels with a black square of 10 x 10
    pixels, two pixels from the top and from the left. *)
Definition small_square_frame : Frame :=
  replicate 2 (replicate 14 white)
  ++ replicate 10 (replicate 2 white ++ replicate 10 black ++ replicate 2 white)
  ++ replicate 2 (replicate 14 white).

(** Three contours as a contour finder may list them: a square of 50, a
    rectangle of 200 by 100 and a square of 100, areas 2401, 19701 and
    9801. *)
Definition square50 : contour := rect 0 0 50 50.
Definition wide200 : contour := rect 0 0 200 100.
Definition square100 : contour := rect 0 0 100 100.
Definition three_contours : list contour := [square50; wide200; square100].

(** Two contours none of which qualifies: a square of 10 and the wide
    rectangle. *)
Definition unfit_contours : list contour := [rect 3 3 10 10; wide200].

(** A cell of 6 x 6 pixels: white paper with a dark blob of 2 x 2. *)
Definition blob_cell : gray :=
  [[255; 255; 255; 255; 255; 255];
   [255; 255; 255; 255; 255; 255];
   [255; 255;  10;  20; 255; 255];
   [255; 255;  10;  10; 255; 255];
   [255; 255; 255; 255; 255; 255];
   [255; 255; 255; 255; 255; 255]].

Definition blob_digit : gray :=
  [[0; 0;   0;   0; 0; 0];
   [0; 0;   0;   0; 0; 0];
   [0; 0; 255; 255; 0; 0];
   [0; 0; 255; 255; 0; 0];
   [0; 0;   0;   0; 0; 0];
   [0; 0;   0;   0; 0; 0]].

(** The same paper with a stroke that runs in from the top left corner
    and a dark stroke of two pixels inside. *)
Definition stroke_cell : gray :=
  [[ 10; 255; 255; 255; 255; 255];
   [ 10;  10; 255; 255; 255; 255];
   [255; 255; 255;  20; 255; 255];
   [255; 255; 255;  10; 255; 255];
   [255; 255; 255; 255; 255; 255];
   [255; 255; 255; 255; 255; 255]].

(** Blank cells of 4 x 4 pixels: white paper, and black. *)
Definition white_cell : gray := replicate 4 (replicate 4 255).
Definition black_cell : gray := replicate 4 (replicate 4 0).

(** Four contours with a tie: two squares of 100 at different places. *)
Definition tied_contours : list contour :=
  [square50; wide200; square100; rect 5 5 100 100].

(** A cell of 4 x 4 pixels whose only stroke runs in from the top. *)
Definition border_stroke_cell : gray :=
  [[255;  10; 255; 255];
   [255;  10; 255; 255];
   [255; 255; 255; 255];
   [255; 255; 255; 255]].

(** The float test against the exact one, [4/5 <= w/h <= 6/5], for all
    sides from 1 to [n]. *)
Definition exact_band (w h : Z) : bool := (4 * h <=? 5 * w) && (5 * w <=? 6 * h).

Definition bands_agree (n : nat) : bool :=
  let sides := Z.of_nat <$> seq 1 n in
  forallb (λ w, forallb (λ h, Bool.eqb (aspect_in_band w h) (exact_band w h))
                        sides)
          sides.

End Examples.

(** * Properties *)

(** ** The built-ins *)

Lemma Qlt_bool_true (x y : Q) : Qlt_bool x y = true → (x < y)%Q.
Proof.
  unfold Qlt_bool. intros H. apply Qnot_le_lt. intros Hle.
  apply Qle_bool_iff in Hle. rewrite Hle in H. discriminate.
Qed.

Lemma Qlt_bool_false (x y : Q) : Qlt_bool x y = false → (y <= x)%Q.
Proof.
  unfold Qlt_bool. intros H. apply Qle_bool_iff.
  destruct (Qle_bool y x); [reflexivity | discriminate].
Qed.

Section Sorted.
Context {A : Type} (key : A → Q).

Lemma insert_desc_perm (x : A) (l : list A) : insert_desc key x l ≡ₚ x :: l.
Proof.
  induction l as [|y l IH]; simpl; [reflexivity|].
  destruct (Qlt_bool (key x) (key y)); [|reflexivity].
  rewrite IH. apply Permutation_swap.
Qed.

Lemma sorted_reverse_perm (l : list A) : sorted_reverse key l ≡ₚ l.
Proof.
  induction l as [|x l IH]; simpl; [reflexivity|].
  rewrite insert_desc_perm. by rewrite IH.
Qed.

Lemma insert_desc_descending (x : A) (l : list A) :
  descending key l → descending key (insert_desc key x l).
Proof.
  unfold descending. induction 1 as [|y l Hl IH Hy]; simpl.
  - repeat constructor.
  - destruct (Qlt_bool (key x) (key y)) eqn:E.
    + constructor; [exact IH|].
      rewrite insert_desc_perm. constructor; [|exact Hy].
      apply Qlt_le_weak, Qlt_bool_true, E.
    + apply Qlt_bool_false in E.
      constructor; [by constructor|].
      constructor; [exact E|].
      eapply Forall_impl; [exact Hy|]. simpl. intros z Hz.
      eapply Qle_trans; eassumption.
Qed.

Lemma sorted_reverse_descending (l : list A) :
  descending key (sorted_reverse key l).
Proof.
  induction l as [|x l IH]; simpl; [constructor|].
  by apply insert_desc_descending.
Qed.

(** Stability: among the elements of any one key, the order of the input
    is kept. *)
Lemma insert_desc_stable (k : Q) (x : A) (l : list A) :
  filter (λ a, Qeq_bool (key a) k = true) (insert_desc key x l)
  = filter (λ a, Qeq_bool (key a) k = true) (x :: l).
Proof.
  induction l as [|y l IH]; simpl; [reflexivity|].
  destruct (Qlt_bool (key x) (key y)) eqn:E; [|reflexivity].
  rewrite filter_cons, IH, !filter_cons.
  destruct (decide (Qeq_bool (key y) k = true)) as [Hy|Hy];
    destruct (decide (Qeq_bool (key x) k = true)) as [Hx|Hx]; try reflexivity.
  apply Qeq_bool_iff in Hx, Hy. apply Qlt_bool_true in E.
  rewrite Hx, Hy in E. by apply Qlt_irrefl in E.
Qed.

Lemma sorted_reverse_stable (k : Q) (l : list A) :
  filter (λ a, Qeq_bool (key a) k = true) (sorted_reverse key l)
  = filter (λ a, Qeq_bool (key a) k = true) l.
Proof.
  induction l as [|x l IH]; simpl; [reflexivity|].
  rewrite insert_desc_stable, !filter_cons, IH. reflexivity.
Qed.

Lemma max_from_spec (best : A) (l : list A) :
  max_from key best l ∈ best :: l ∧
  ∀ a, a ∈ best :: l → (key a <= key (max_from key best l))%Q.
Proof.
  revert best. induction l as [|x l IH]; intros best; simpl.
  - split; [left|]. intros a Ha. apply list_elem_of_singleton in Ha as ->.
    apply Qle_refl.
  - destruct (IH (if Qlt_bool (key best) (key x) then x else best)) as [Hin Hmax].
    split.
    + apply elem_of_cons in Hin as [->|Hin].
      * destruct (Qlt_bool (key best) (key x)); [right; left | left].
      * do 2 right. exact Hin.
    + intros a Ha.
      assert (Hstep : ∀ b, b ∈ l → (key b <= key (max_from key
                 (if Qlt_bool (key best) (key x) then x else best) l))%Q)
        by (intros b Hb; apply Hmax; by right).
      assert (Hcur : (key (if Qlt_bool (key best) (key x) then x else best)
                      <= key (max_from key
                 (if Qlt_bool (key best) (key x) then x else best) l))%Q)
        by (apply Hmax; left).
      apply elem_of_cons in Ha as [->|Ha]; [|apply elem_of_cons in Ha as [->|Ha]].
      * eapply Qle_trans; [|exact Hcur].
        destruct (Qlt_bool (key best) (key x)) eqn:E; [|apply Qle_refl].
        apply Qlt_le_weak, Qlt_bool_true, E.
      * eapply Qle_trans; [|exact Hcur].
        destruct (Qlt_bool (key best) (key x)) eqn:E; [apply Qle_refl|].
        apply Qlt_bool_false, E.
      * by apply Hstep.
Qed.



End Sorted.

(** ** The written-out library routines *)

Lemma foldr_min_le (x0 : Z) (l : list Z) : foldr Z.min x0 l <= x0.
Proof. induction l as [|x l IH]; simpl; lia. Qed.

Lemma foldr_max_ge (x0 : Z) (l : list Z) : x0 <= foldr Z.max x0 l.
Proof. induction l as [|x l IH]; simpl; lia. Qed.

(** The bounding rectangle of a non-empty point set is at least one
    pixel wide and high. *)
Lemma boundingRect_positive (pts : contour) :
  pts ≠ [] → 1 <= (boundingRect pts).1.2 ∧ 1 <= (boundingRect pts).2.
Proof.
  destruct pts as [|[x0 y0] rest]; [done|]. intros _. simpl.
  pose proof (foldr_min_le x0 (fst <$> rest)).
  pose proof (foldr_max_ge x0 (fst <$> rest)).
  pose proof (foldr_min_le y0 (snd <$> rest)).
  pose proof (foldr_max_ge y0 (snd <$> rest)).
  lia.
Qed.

Lemma Forall_imap {A B} (P : B → Prop) (f : nat → A → B) (l : list A) :
  (∀ i x, l !! i = Some x → P (f i x)) → Forall P (imap f l).
Proof.
  intros H. apply Forall_forall. intros y Hy.
  apply elem_of_lookup_imap_1 in Hy as (i & x & -> & Hx). by eapply H.
Qed.

(** ** The loop of [find_puzzle] *)

Section FindPuzzle.
Context (L : cv_library).

Implicit Types (c : contour) (frame : Frame).

(** The division of line 61 never fails on a four-point approximation. *)
Lemma truediv_bbox c :
  four_vertices L c = true →
  truediv (bbox_size L c).1 (bbox_size L c).2
  = Return (PrimFloat.div (float_of_int (bbox_size L c).1)
                          (float_of_int (bbox_size L c).2)).
Proof.
  unfold four_vertices, bbox_size, truediv. intros H4.
  apply Nat.eqb_eq in H4.
  destruct (boundingRect_positive (approx_of L c)) as [_ Hh].
  { intros E. rewrite E in H4. discriminate. }
  destruct (boundingRect (approx_of L c)) as [[[x y] w] h]. simpl in *.
  destruct (Z.eqb_spec h 0); [lia | reflexivity].
Qed.

(** One turn of the loop on a contour that fails a test: next contour. *)
Lemma find_puzzle_loop_skip c cnts puzzle_cnt frame :
  qualifies L c = false →
  find_puzzle_loop L (c :: cnts) puzzle_cnt frame
  = find_puzzle_loop L cnts puzzle_cnt frame.
Proof.
  intros Hq. simpl. fold (approx_of L c).
  destruct (length (approx_of L c) =? 4)%nat eqn:H4; [|reflexivity].
  pose proof (truediv_bbox c H4) as Hdiv.
  unfold qualifies, keepDims, keepAspectRatio, aspect_in_band, four_vertices in Hq.
  rewrite H4 in Hq. unfold bbox_size in Hq, Hdiv.
  destruct (boundingRect (approx_of L c)) as [[[x y] w] h]. simpl in Hq, Hdiv.
  unfold mbind, M_bind, lift. rewrite Hdiv.
  rewrite !Z.gtb_ltb, Hq. reflexivity.
Qed.

(** One turn of the loop on a contour that passes: draw it and leave. *)
Lemma find_puzzle_loop_accept c cnts puzzle_cnt frame :
  qualifies L c = true →
  find_puzzle_loop L (c :: cnts) puzzle_cnt frame
  = (Return (Some (approx_of L c)), drawn L frame c).
Proof.
  intros Hq. simpl. fold (approx_of L c).
  unfold qualifies, keepDims, keepAspectRatio, aspect_in_band in Hq.
  destruct (four_vertices L c) eqn:H4; [|discriminate].
  pose proof (truediv_bbox c H4) as Hdiv.
  unfold four_vertices in H4. rewrite H4.
  unfold bbox_size in Hq, Hdiv.
  destruct (boundingRect (approx_of L c)) as [[[x y] w] h]. simpl in Hq, Hdiv.
  unfold mbind, M_bind, lift. rewrite Hdiv.
  rewrite !Z.gtb_ltb, Hq. reflexivity.
Qed.

Lemma find_puzzle_loop_none cnts puzzle_cnt frame :
  Forall (λ c, qualifies L c = false) cnts →
  find_puzzle_loop L cnts puzzle_cnt frame = (Return puzzle_cnt, frame).
Proof.
  induction 1 as [|c cnts Hc _ IH]; [reflexivity|].
  by rewrite find_puzzle_loop_skip.
Qed.

Lemma find_puzzle_loop_first before c after puzzle_cnt frame :
  Forall (λ c, qualifies L c = false) before →
  qualifies L c = true →
  find_puzzle_loop L (before ++ c :: after) puzzle_cnt frame
  = (Return (Some (approx_of L c)), drawn L frame c).
Proof.
  induction 1 as [|c' before Hc' _ IH]; intros Hq; simpl app.
  - by apply find_puzzle_loop_accept.
  - rewrite find_puzzle_loop_skip by exact Hc'. by apply IH.
Qed.

(** A list either has a first qualifying contour or none at all. *)
Lemma first_qualifying (cnts : list contour) :
  Forall (λ c, qualifies L c = false) cnts ∨
  ∃ before c after, cnts = before ++ c :: after ∧
    Forall (λ c, qualifies L c = false) before ∧ qualifies L c = true.
Proof.
  induction cnts as [|c cnts IH]; [left; constructor|].
  destruct (qualifies L c) eqn:Hq.
  - right. exists [], c, cnts. repeat split; [constructor | exact Hq].
  - destruct IH as [IH|(before & c' & after & -> & Hb & Hc')].
    + left. by constructor.
    + right. exists (c :: before), c', after. repeat split; [by constructor|exact Hc'].
Qed.

(** [find_puzzle] in terms of its loop. *)
Lemma find_puzzle_unfold frame :
  find_puzzle L frame
  = match find_puzzle_loop L (sorted_contours L frame) None frame with
    | (Return None, frame') => (Raise PuzzleNotFoundError, frame')
    | (Return (Some puzzle_cnt), frame') =>
        (Return (four_point_transform L (gray_of L frame) puzzle_cnt), frame')
    | (Raise e, frame') => (Raise e, frame')
    end.
Proof.
  unfold find_puzzle, mbind, M_bind, read, sorted_contours, found_contours, gray_of.
  destruct (find_puzzle_loop L _ None frame) as [[[a|]|e] frame']; reflexivity.
Qed.

Lemma find_puzzle_found frame before c after :
  sorted_contours L frame = before ++ c :: after →
  Forall (λ c, qualifies L c = false) before →
  qualifies L c = true →
  find_puzzle L frame
  = (Return (four_point_transform L (gray_of L frame) (approx_of L c)),
     drawn L frame c).
Proof.
  intros Heq Hb Hq. rewrite find_puzzle_unfold, Heq.
  by rewrite find_puzzle_loop_first.
Qed.

Lemma find_puzzle_not_found frame :
  Forall (λ c, qualifies L c = false) (found_contours L frame) →
  find_puzzle L frame = (Raise PuzzleNotFoundError, frame).
Proof.
  intros Hnone. rewrite find_puzzle_unfold, find_puzzle_loop_none; [reflexivity|].
  unfold sorted_contours. by rewrite sorted_reverse_perm.
Qed.

End FindPuzzle.

(** ** The pixels of [extract_digit] *)

Lemma pixel_at_imap (f : nat → nat → Z → Z) (img : gray) (r k : nat) :
  pixel_at (imap (λ r row, imap (f r) row) img) r k
  = match img !! r ≫= λ row, row !! k with
    | Some p => f r k p
    | None => 0
    end.
Proof.
  unfold pixel_at. rewrite list_lookup_imap.
  destruct (img !! r) as [row|]; simpl; [|reflexivity].
  rewrite list_lookup_imap. by destruct (row !! k).
Qed.

Lemma all_pixels_imap {A B} (P : B → Prop) (f : nat → nat → A → B) (img : image A) :
  (∀ r row k p, img !! r = Some row → row !! k = Some p → P (f r k p)) →
  all_pixels P (imap (λ r row, imap (f r) row) img).
Proof.
  intros H. apply Forall_imap. intros r row Hr.
  apply Forall_imap. intros k p Hk. by eapply H.
Qed.

Lemma all_pixels_lookup {A} (P : A → Prop) (img : image A) r row k p :
  all_pixels P img → img !! r = Some row → row !! k = Some p → P p.
Proof.
  intros Hall Hr Hk.
  eapply Forall_lookup_1 in Hall; [|exact Hr].
  eapply Forall_lookup_1 in Hall; [|exact Hk]. exact Hall.
Qed.

Lemma shape_imap {A B} (f : nat → nat → A → B) (img : image A) :
  shape (imap (λ r row, imap (f r) row) img) = shape img.
Proof.
  unfold shape. rewrite length_imap. f_equal.
  destruct img as [|row img]; [reflexivity|]. simpl. apply length_imap.
Qed.

Lemma rectangular_imap {A B} (f : nat → nat → A → B) (img : image A) :
  rectangular img → rectangular (imap (λ r row, imap (f r) row) img).
Proof.
  unfold rectangular. rewrite shape_imap. intros Hrect.
  apply Forall_imap. intros r row Hr. rewrite length_imap.
  eapply Forall_lookup_1 in Hrect; [exact Hrect | exact Hr].
Qed.

Lemma shape_fmap {A B} (f : A → B) (img : image A) :
  shape ((λ row : list A, f <$> row) <$> img) = shape img.
Proof.
  unfold shape. rewrite length_fmap. f_equal.
  destruct img as [|row img]; [reflexivity|]. simpl. apply length_fmap.
Qed.

Lemma rectangular_fmap {A B} (f : A → B) (img : image A) :
  rectangular img → rectangular ((λ row : list A, f <$> row) <$> img).
Proof.
  unfold rectangular. rewrite shape_fmap. intros Hrect.
  apply Forall_fmap. eapply Forall_impl; [exact Hrect|].
  simpl. intros row Hrow. by rewrite length_fmap.
Qed.



Section ExtractDigit.
Context (L : cv_library).

Implicit Types (c : contour) (cell : gray).

(** [extract_digit] by the contours it finds. *)
Lemma extract_digit_unfold cell :
  extract_digit L cell
  = match cell_contours L cell with
    | [] => (Return (None, true), cell)
    | c0 :: rest =>
        let c := max_from (contourArea L) c0 rest in
        (Return (Some (bitwise_and (cell_thresh L cell) (cell_thresh L cell)
                         (filled_mask L cell c)), false), cell)
    end.
Proof.
  unfold extract_digit, mbind, M_bind, read.
  fold (cell_thresh L cell). fold (cell_contours L cell).
  destruct (cell_contours L cell) as [|c0 rest]; reflexivity.
Qed.

Lemma threshold_binary_inv_otsu (src : gray) (maxval : Z) :
  all_pixels (λ p, p = 0 ∨ p = maxval)
    (threshold L src 0 maxval (Z.lor THRESH_BINARY_INV THRESH_OTSU)).2.
Proof.
  unfold threshold. simpl.
  apply Forall_fmap, Forall_true. intros row.
  apply Forall_fmap, Forall_true. intros p. simpl.
  unfold threshold_pixel. simpl.
  destruct (otsu_level L src <? p); auto.
Qed.

Lemma clear_border_values (P : Z → Prop) (img : gray) :
  P 0 → all_pixels P img → all_pixels P (clear_border L img).
Proof.
  intros H0 Hall. unfold clear_border.
  apply all_pixels_imap. intros r row k p Hr Hk.
  destruct (border_component L img r k); [exact H0|].
  by eapply all_pixels_lookup.
Qed.

Lemma cell_thresh_binary cell : BinaryMask (cell_thresh L cell).
Proof.
  apply clear_border_values; [by left|].
  apply (threshold_binary_inv_otsu cell 255).
Qed.

Lemma bitwise_and_self_values (P : Z → Prop) (src mask : gray) :
  P 0 → all_pixels P src → all_pixels P (bitwise_and src src mask).
Proof.
  intros H0 Hall. unfold bitwise_and.
  apply all_pixels_imap. intros r row k p Hr Hk.
  destruct (pixel_at mask r k =? 0); [exact H0|].
  unfold pixel_at. rewrite Hr. simpl. rewrite Hk. simpl.
  rewrite Z.land_diag. by eapply all_pixels_lookup.
Qed.


Lemma rectangular_cell_thresh cell :
  rectangular cell → rectangular (cell_thresh L cell).
Proof.
  intros Hrect. unfold cell_thresh, clear_border.
  apply (rectangular_imap (λ r k p, if border_component L _ r k then 0 else p)).
  unfold threshold. simpl. by apply rectangular_fmap.
Qed.


End ExtractDigit.

(** * The claims of the specification *)

Section Claims.
Context (L : cv_library).

(** The conditions of the loop, spelt out. *)
Lemma qualifies_spec (c : contour) :
  qualifies L c = true ↔
  length (approx_of L c) = 4%nat ∧
  45 < (bbox_size L c).1 ∧ 45 < (bbox_size L c).2 ∧
  aspect_in_band (bbox_size L c).1 (bbox_size L c).2 = true.
Proof.
  unfold qualifies, four_vertices, keepDims, keepAspectRatio.
  rewrite !andb_true_iff, Nat.eqb_eq, !Z.ltb_lt. tauto.
Qed.

(** C1. For every frame the loop runs over the found contours in
    descending order of [contourArea]; the contour accepted is the first
    one in that order whose approximation (tolerance 0.01 times the
    perimeter) has 4 vertices and a bounding box more than 45 wide, more
    than 45 high and of aspect ratio within [0.8, 1.2]: its approximation
    is drawn and warped, and whatever follows it in the order has no
    influence on the loop. *)
Theorem find_puzzle_accepts_first_qualifying (frame : Frame)
    (before : list contour) (c : contour) (after : list contour) :
  sorted_contours L frame = before ++ c :: after →
  Forall (λ c', qualifies L c' = false) before →
  qualifies L c = true →
  sorted_contours L frame ≡ₚ found_contours L frame ∧
  descending (contourArea L) (sorted_contours L frame) ∧
  (length (approx_of L c) = 4%nat ∧
   45 < (bbox_size L c).1 ∧ 45 < (bbox_size L c).2 ∧
   aspect_in_band (bbox_size L c).1 (bbox_size L c).2 = true) ∧
  find_puzzle L frame
  = (Return (four_point_transform L (gray_of L frame) (approx_of L c)),
     drawn L frame c) ∧
  ∀ after' puzzle_cnt,
    find_puzzle_loop L (before ++ c :: after') puzzle_cnt frame
    = find_puzzle_loop L (before ++ c :: after) puzzle_cnt frame.
Proof.
  intros Heq Hbefore Hc. split; [apply sorted_reverse_perm|].
  split; [apply sorted_reverse_descending|].
  split; [by apply qualifies_spec|].
  split; [by eapply find_puzzle_found|].
  intros after' puzzle_cnt. by rewrite !find_puzzle_loop_first.
Qed.

(** C2. When no contour of the frame passes the 4-vertex, size and
    aspect-ratio tests, [find_puzzle] raises [PuzzleNotFoundError] (the
    specification's GridNotFoundError); no other exception leaves
    [find_puzzle], and [extract_digit] raises none. *)
Theorem find_puzzle_raises_not_found (frame : Frame) :
  (Forall (λ c, qualifies L c = false) (found_contours L frame) →
   find_puzzle L frame = (Raise PuzzleNotFoundError, frame)) ∧
  (∀ e frame', find_puzzle L frame = (Raise e, frame') →
               e = PuzzleNotFoundError) ∧
  (∀ cell, ∃ r, extract_digit L cell = (Return r, cell)).
Proof.
  split; [apply find_puzzle_not_found|]. split.
  - intros e frame'.
    destruct (first_qualifying L (sorted_contours L frame))
      as [Hnone|(before & c & after & Heq & Hb & Hc)].
    + rewrite find_puzzle_unfold, find_puzzle_loop_none by exact Hnone.
      congruence.
    + rewrite (find_puzzle_found L frame before c after) by assumption.
      discriminate.
  - intros cell. rewrite extract_digit_unfold.
    destruct (cell_contours L cell); eauto.
Qed.


(** C4. When the thresholded, border-cleared cell has no contour,
    [extract_digit] returns (None, True); in particular for a blank
    cell, for which a library that finds no contour without foreground
    and puts a uniform foreground on the border finds none. *)
Theorem extract_digit_empty_cell (cell : gray) :
  (cell_contours L cell = [] →
   extract_digit L cell = (Return (None, true), cell)) ∧
  (no_foreground_no_contours L → uniform_component_on_border L →
   ∀ v, rectangular cell → blank v cell →
        extract_digit L cell = (Return (None, true), cell)).
Proof.
  assert (Hempty : cell_contours L cell = [] →
                   extract_digit L cell = (Return (None, true), cell)).
  { intros Hnil. by rewrite extract_digit_unfold, Hnil. }
  split; [exact Hempty|].
  intros Hfc Hcb v Hrect Hblank. apply Hempty.
  unfold cell_contours. apply Hfc.
  unfold cell_thresh, clear_border, threshold. simpl.
  change (Z.lor THRESH_BINARY_INV THRESH_OTSU) with 9.
  set (level := otsu_level L cell).
  set (v' := threshold_pixel 9 level 255 v).
  set (src := (λ row : list Z, threshold_pixel 9 level 255 <$> row) <$> cell).
  assert (Hsrc : all_pixels (eq v') src).
  { apply Forall_fmap. eapply Forall_impl; [exact Hblank|].
    simpl. intros row Hrow. apply Forall_fmap.
    eapply Forall_impl; [exact Hrow|]. simpl. by intros p <-. }
  apply all_pixels_imap. intros r row k p Hr Hk.
  destruct (decide (v' = 0)) as [Hv|Hv].
  - rewrite <- (all_pixels_lookup _ _ _ _ _ _ Hsrc Hr Hk), Hv.
    by destruct (border_component L src r k).
  - rewrite (Hcb src v' r row k p); try assumption; [reflexivity|].
    by apply rectangular_fmap.
Qed.

(** C5. On success [find_puzzle] returns the four-point transform of the
    grayscale conversion of the frame as it was passed in (not blurred,
    not thresholded, not drawn on), at the four points of the accepted
    approximation in the order [approxPolyDP] gave them. *)
Theorem find_puzzle_warps_gray (frame : Frame) (transformed : gray)
    (frame' : Frame) :
  find_puzzle L frame = (Return transformed, frame') →
  ∃ before c after,
    sorted_contours L frame = before ++ c :: after ∧
    Forall (λ c', qualifies L c' = false) before ∧
    qualifies L c = true ∧
    length (approx_of L c) = 4%nat ∧
    transformed
    = four_point_transform L (cvtColor L frame COLOR_BGR2GRAY)
        (approxPolyDP L c (0.01 * arcLength L c true)%float true).
Proof.
  destruct (first_qualifying L (sorted_contours L frame))
    as [Hnone|(before & c & after & Heq & Hb & Hc)].
  - rewrite find_puzzle_unfold, find_puzzle_loop_none by exact Hnone.
    discriminate.
  - rewrite (find_puzzle_found L frame before c after) by assumption.
    intros [= <- _]. exists before, c, after.
    repeat split; try assumption. by apply qualifies_spec.
Qed.

(** C6. When every contour of the frame with a 4-vertex approximation
    has a bounding box at most 45 wide or at most 45 high (say 10 by
    10), the size test rejects each of them and [find_puzzle] raises
    [PuzzleNotFoundError]. *)
Theorem find_puzzle_rejects_small (frame : Frame) :
  (∀ c, c ∈ found_contours L frame → length (approx_of L c) = 4%nat →
        (bbox_size L c).1 <= 45 ∨ (bbox_size L c).2 <= 45) →
  (∀ c, c ∈ found_contours L frame → length (approx_of L c) = 4%nat →
        keepDims L c = false) ∧
  find_puzzle L frame = (Raise PuzzleNotFoundError, frame).
Proof.
  intros Hsmall.
  assert (Hdims : ∀ c, c ∈ found_contours L frame →
            length (approx_of L c) = 4%nat → keepDims L c = false).
  { intros c Hin H4. unfold keepDims. apply andb_false_iff.
    rewrite !Z.ltb_ge. by apply Hsmall. }
  split; [exact Hdims|].
  apply find_puzzle_not_found, Forall_forall. intros c Hin.
  unfold qualifies, four_vertices.
  destruct (length (approx_of L c) =? 4)%nat eqn:H4; [|reflexivity].
  apply Nat.eqb_eq in H4. by rewrite Hdims.
Qed.


(** C8. A mask returned by [extract_digit] holds no pixel value other
    than 0 and 255. *)
Theorem extract_digit_mask_binary (cell digit : gray) (empty : bool)
    (cell' : gray) :
  extract_digit L cell = (Return (Some digit, empty), cell') →
  BinaryMask digit.
Proof.
  rewrite extract_digit_unfold.
  destruct (cell_contours L cell) as [|c0 rest]; [discriminate|].
  intros [= <- _ _].
  apply bitwise_and_self_values; [by left | apply cell_thresh_binary].
Qed.

(** C9. [find_puzzle] leaves the caller's frame as it was whenever it
    raises; the frame changes only by the drawing of the accepted
    approximation, when a contour qualifies. *)
Theorem find_puzzle_frame_effect (frame : Frame) :
  (∀ e frame', find_puzzle L frame = (Raise e, frame') → frame' = frame) ∧
  (∀ transformed frame',
     find_puzzle L frame = (Return transformed, frame') →
     ∃ c, c ∈ found_contours L frame ∧ qualifies L c = true ∧
          frame' = drawContours L frame [approx_of L c] (-1) (0, 255, 0) 2) ∧
  (∀ o frame', find_puzzle L frame = (o, frame') → frame' ≠ frame →
     ∃ c, c ∈ found_contours L frame ∧ qualifies L c = true).
Proof.
  destruct (first_qualifying L (sorted_contours L frame))
    as [Hnone|(before & c & after & Heq & Hb & Hc)].
  - rewrite find_puzzle_unfold, find_puzzle_loop_none by exact Hnone.
    repeat split; intros; simplify_eq; done.
  - rewrite (find_puzzle_found L frame before c after) by assumption.
    assert (Hin : c ∈ found_contours L frame).
    { rewrite <- (sorted_reverse_perm (contourArea L)).
      fold (sorted_contours L frame). rewrite Heq.
      apply elem_of_app. right. left. }
    repeat split; intros; simplify_eq; eauto.
Qed.

(** C10. [extract_digit] always returns a pair; its mask is None exactly
    when its flag is True, and a mask that is present comes with the
    flag False. *)
Theorem extract_digit_flag_consistent (cell : gray) :
  ∃ mask empty,
    extract_digit L cell = (Return (mask, empty), cell) ∧
    (mask = None ↔ empty = true) ∧
    (∀ digit, mask = Some digit → empty = false).
Proof.
  rewrite extract_digit_unfold.
  destruct (cell_contours L cell) as [|c0 rest]; eexists _, _;
    (split; [reflexivity|]); split; try split; try done.
Qed.

End Claims.

(** * The small library on blank images *)

Module ToyFacts.

Lemma marked_imap (f : nat → nat → Z → bool) (img : gray) (r k : nat) :
  Toy.marked (imap (λ r row, imap (f r) row) img) r k
  = match img !! r ≫= λ row, row !! k with
    | Some p => f r k p
    | None => false
    end.
Proof.
  unfold Toy.marked. rewrite list_lookup_imap.
  destruct (img !! r) as [row|]; simpl; [|reflexivity].
  rewrite list_lookup_imap. by destruct (row !! k).
Qed.

Lemma no_points_in_blank_row (g : nat → Z → option point) (row : list Z) :
  (∀ c, g c 0 = None) → Forall (eq 0) row → omap id (imap g row) = [].
Proof.
  intros Hg Hrow. revert g Hg.
  induction Hrow as [|p row <- _ IH]; intros g Hg; [reflexivity|].
  rewrite imap_cons. simpl. rewrite Hg. simpl. apply IH. intros c. apply Hg.
Qed.

Lemma no_points_in_blank (f : nat → nat → Z → option point) (img : gray) :
  (∀ r c, f r c 0 = None) → all_pixels (eq 0) img →
  mjoin (imap (λ r row, omap id (imap (f r) row)) img) = [].
Proof.
  intros Hf Himg. revert f Hf.
  induction Himg as [|row img Hrow _ IH]; intros f Hf; [reflexivity|].
  rewrite imap_cons. simpl.
  rewrite no_points_in_blank_row by (apply Hf || exact Hrow). simpl.
  apply (IH (λ r, f (S r))). intros r c. apply Hf.
Qed.

Lemma foreground_blank (img : gray) :
  all_pixels (eq 0) img → Toy.foreground img = [].
Proof.
  intros Himg. unfold Toy.foreground.
  by apply (no_points_in_blank
              (λ r c p, if p =? 0 then None else Some (Z.of_nat c, Z.of_nat r))).
Qed.

(** The contour finder of the small library finds nothing without
    foreground. *)
Lemma lib_no_foreground_no_contours : no_foreground_no_contours Toy.lib.
Proof.
  intros img mode method Himg. simpl. unfold Toy.findContours.
  by rewrite foreground_blank.
Qed.

Lemma rows_le_pixels (img : gray) :
  Forall (λ row, (1 ≤ length row)%nat) img → (length img ≤ length (mjoin img))%nat.
Proof.
  induction 1 as [|row img Hrow _ IH]; simpl; [lia|].
  rewrite length_app. lia.
Qed.

Section Flood.
Context (img : gray) (v : Z).
Hypothesis (Hv : v ≠ 0) (Hrect : rectangular img) (Hblank : all_pixels (eq v) img).

Lemma blank_pixel r row k p :
  img !! r = Some row → row !! k = Some p → p = v.
Proof. intros Hr Hk. symmetry. by eapply (all_pixels_lookup (eq v)). Qed.

Lemma row_above (r : nat) row k p :
  img !! S r = Some row → row !! k = Some p →
  ∃ row', img !! r = Some row' ∧ row' !! k = Some v.
Proof.
  intros Hr Hk.
  destruct (lookup_lt_is_Some_2 img r) as [row' Hr'].
  { apply lookup_lt_Some in Hr. lia. }
  exists row'. split; [exact Hr'|].
  destruct (lookup_lt_is_Some_2 row' k) as [p' Hk'].
  { pose proof (Forall_lookup_1 _ _ _ _ Hrect Hr') as H1.
    pose proof (Forall_lookup_1 _ _ _ _ Hrect Hr) as H2.
    simpl in H1, H2. rewrite H1, <- H2. by eapply lookup_lt_Some. }
  by rewrite Hk', (blank_pixel r row' k p').
Qed.

(** After [n] rounds the rows 0..n of a uniform image are marked. *)
Lemma grown_rows (n : nat) r row k p :
  img !! r = Some row → row !! k = Some p → (r ≤ n)%nat →
  Toy.marked (Nat.iter n (Toy.grow img) (Toy.border_seed img)) r k = true.
Proof.
  revert r row k p. induction n as [|n IH]; intros r row k p Hr Hk Hle.
  - assert (r = 0)%nat as -> by lia.
    simpl. unfold Toy.border_seed.
    rewrite (marked_imap (λ r k p, negb (p =? 0) && Toy.on_border img r k)).
    rewrite Hr. simpl. rewrite Hk.
    rewrite (blank_pixel 0 row k p Hr Hk).
    destruct (Z.eqb_spec v 0); [done|reflexivity].
  - simpl. unfold Toy.grow at 1.
    rewrite (marked_imap (λ r k p,
      Toy.marked (Nat.iter n (Toy.grow img) (Toy.border_seed img)) r k
      || negb (p =? 0)
         && existsb (λ m, Toy.marked (Nat.iter n (Toy.grow img)
                                        (Toy.border_seed img)) m.1 m.2
                          && (pixel_at img m.1 m.2 =? p))
                    (Toy.neighbours r k))).
    rewrite Hr. simpl. rewrite Hk.
    destruct (decide (r ≤ n)%nat) as [Hn|Hn].
    + by rewrite (IH r row k p).
    + assert (r = S n) as -> by lia.
      destruct (row_above n row k p Hr Hk) as (row' & Hr' & Hk').
      rewrite (blank_pixel (S n) row k p Hr Hk).
      apply orb_true_iff. right. apply andb_true_iff. split.
      { by destruct (Z.eqb_spec v 0). }
      simpl. rewrite (IH n row' k v Hr' Hk') by lia.
      unfold pixel_at at 2. rewrite Hr'. simpl. rewrite Hk'. simpl.
      rewrite Z.eqb_refl. simpl. by rewrite orb_true_r.
Qed.

End Flood.

(** The labelling of the small library puts every pixel of a uniform
    non-zero image on the border. *)
Lemma lib_uniform_component_on_border : uniform_component_on_border Toy.lib.
Proof.
  intros img v r row k p Hv Hrect Hblank Hr Hk. simpl.
  unfold Toy.border_component.
  eapply (grown_rows img v Hv Hrect Hblank); [exact Hr | exact Hk|].
  assert (Hrows : Forall (λ row, (1 ≤ length row)%nat) img).
  { eapply Forall_impl; [exact Hrect|]. simpl. intros row' Hrow'.
    pose proof (Forall_lookup_1 _ _ _ _ Hrect Hr) as H1. simpl in H1.
    apply lookup_lt_Some in Hk. lia. }
  apply rows_le_pixels in Hrows. apply lookup_lt_Some in Hr. lia.
Qed.

End ToyFacts.

(** * The claims on concrete frames and cells *)

Section Runs.
Import Examples.

(** The frame of the three contours: the wide rectangle comes first and
    fails the aspect test, the square of 100 is accepted, the square of
    50 is never reached. *)
Lemma find_puzzle_accepts_first_qualifying_witness :
  sorted_contours (Toy.reporting three_contours) plain_frame
  = [wide200] ++ square100 :: [square50] ∧
  find_puzzle (Toy.reporting three_contours) plain_frame
  = (Return (replicate 4 (replicate 4 9)),
     [[(0, 255, 0); (0, 255, 0); (0, 255, 0); (0, 255, 0)];
      [(0, 255, 0); (9, 9, 9); (9, 9, 9); (9, 9, 9)];
      [(0, 255, 0); (9, 9, 9); (9, 9, 9); (9, 9, 9)];
      [(0, 255, 0); (9, 9, 9); (9, 9, 9); (9, 9, 9)]]).
Proof.
  split; [vm_compute; reflexivity|].
  refine (proj1 (proj2 (proj2 (proj2
    (find_puzzle_accepts_first_qualifying (Toy.reporting three_contours)
       plain_frame [wide200] square100 [square50] _ _ _))))).
  - vm_compute; reflexivity.
  - repeat constructor.
  - vm_compute; reflexivity.
Defined.

Lemma find_puzzle_raises_not_found_witness :
  find_puzzle (Toy.reporting unfit_contours) plain_frame
  = (Raise PuzzleNotFoundError, plain_frame).
Proof.
  apply (proj1 (find_puzzle_raises_not_found (Toy.reporting unfit_contours)
                  plain_frame)).
  repeat constructor.
Defined.


Lemma extract_digit_empty_cell_witness :
  extract_digit Toy.lib white_cell = (Return (None, true), white_cell) ∧
  extract_digit Toy.lib black_cell = (Return (None, true), black_cell).
Proof.
  split.
  - apply (proj2 (extract_digit_empty_cell Toy.lib white_cell)
             ToyFacts.lib_no_foreground_no_contours
             ToyFacts.lib_uniform_component_on_border 255);
      repeat constructor.
  - apply (proj1 (extract_digit_empty_cell Toy.lib black_cell)).
    vm_compute; reflexivity.
Defined.

Lemma find_puzzle_warps_gray_witness :
  ∃ before c after,
    sorted_contours (Toy.reporting three_contours) plain_frame
    = before ++ c :: after ∧
    Forall (λ c', qualifies (Toy.reporting three_contours) c' = false) before ∧
    qualifies (Toy.reporting three_contours) c = true ∧
    length (approx_of (Toy.reporting three_contours) c) = 4%nat ∧
    replicate 4 (replicate 4 9)
    = four_point_transform (Toy.reporting three_contours)
        (cvtColor (Toy.reporting three_contours) plain_frame COLOR_BGR2GRAY)
        (approxPolyDP (Toy.reporting three_contours) c
           (0.01 * arcLength (Toy.reporting three_contours) c true)%float true).
Proof.
  apply (find_puzzle_warps_gray (Toy.reporting three_contours) plain_frame
           (replicate 4 (replicate 4 9))
           (drawn (Toy.reporting three_contours) plain_frame square100)).
  vm_compute; reflexivity.
Defined.

(** A black square of 10 x 10 pixels on white: one contour, four
    vertices, too small. *)
Lemma find_puzzle_rejects_small_witness :
  found_contours Toy.lib small_square_frame = [rect 2 2 10 10] ∧
  length (approx_of Toy.lib (rect 2 2 10 10)) = 4%nat ∧
  bbox_size Toy.lib (rect 2 2 10 10) = (10, 10) ∧
  find_puzzle Toy.lib small_square_frame
  = (Raise PuzzleNotFoundError, small_square_frame).
Proof.
  do 3 (split; [vm_compute; reflexivity|]).
  apply (find_puzzle_rejects_small Toy.lib small_square_frame).
  intros c Hin _. apply list_elem_of_singleton in Hin as ->.
  left. vm_compute. discriminate.
Defined.

Lemma extract_digit_mask_binary_witness :
  extract_digit Toy.lib blob_cell = (Return (Some blob_digit, false), blob_cell) ∧
  BinaryMask blob_digit.
Proof.
  split; [vm_compute; reflexivity|].
  apply (extract_digit_mask_binary Toy.lib blob_cell blob_digit false blob_cell).
  vm_compute; reflexivity.
Defined.

Lemma find_puzzle_frame_effect_witness :
  (find_puzzle (Toy.reporting unfit_contours) plain_frame).2 = plain_frame ∧
  ∃ c, c ∈ found_contours (Toy.reporting three_contours) plain_frame ∧
       qualifies (Toy.reporting three_contours) c = true ∧
       (find_puzzle (Toy.reporting three_contours) plain_frame).2
       = drawContours (Toy.reporting three_contours) plain_frame
           [approx_of (Toy.reporting three_contours) c] (-1) (0, 255, 0) 2.
Proof.
  split.
  - apply (proj1 (find_puzzle_frame_effect (Toy.reporting unfit_contours)
                    plain_frame) PuzzleNotFoundError).
    vm_compute; reflexivity.
  - apply (proj1 (proj2 (find_puzzle_frame_effect
                           (Toy.reporting three_contours) plain_frame))
             (replicate 4 (replicate 4 9))).
    vm_compute; reflexivity.
Defined.

(** [find_puzzle] is not repeatable in this way: a second call on the
    frame object of a successful call sees the contour drawn by the
    first. *)
Example find_puzzle_twice :
  (find_puzzle (Toy.reporting three_contours)
     (find_puzzle (Toy.reporting three_contours) plain_frame).2).1
  ≠ (find_puzzle (Toy.reporting three_contours) plain_frame).1.
Proof. vm_compute. discriminate. Qed.

(** [max] keeps the first of two contours of the same, greatest area. *)
Example extract_digit_first_of_equal_areas :
  (extract_digit (Toy.reporting [rect 1 1 2 2; rect 2 2 3 3; rect 1 1 3 3])
     blob_cell).1
  = Return (Some (bitwise_and (cell_thresh Toy.lib blob_cell)
                    (cell_thresh Toy.lib blob_cell)
                    (filled_mask Toy.lib blob_cell (rect 2 2 3 3))), false).
Proof. vm_compute. reflexivity. Qed.

(** A stroke that touches the border is cleared; the stroke inside is
    kept. *)
Example extract_digit_stroke_cell :
  (extract_digit Toy.lib stroke_cell).1
  = Return (Some [[0; 0; 0;   0; 0; 0];
                  [0; 0; 0;   0; 0; 0];
                  [0; 0; 0; 255; 0; 0];
                  [0; 0; 0; 255; 0; 0];
                  [0; 0; 0;   0; 0; 0];
                  [0; 0; 0;   0; 0; 0]], false).
Proof. vm_compute. reflexivity. Qed.

(** The ends of the band are in it: 48 : 60 = 0.8 and 60 : 50 = 1.2 are
    accepted, 47 : 59 and 61 : 50 are not. *)
Example aspect_in_band_ends :
  aspect_in_band 48 60 = true ∧ aspect_in_band 60 50 = true ∧
  aspect_in_band 47 59 = false ∧ aspect_in_band 61 50 = false.
Proof. vm_compute. repeat split. Qed.

Lemma bands_agree_spec (n : nat) (w h : Z) :
  bands_agree n = true →
  1 <= w <= Z.of_nat n → 1 <= h <= Z.of_nat n →
  aspect_in_band w h = exact_band w h.
Proof.
  intros Hall Hw Hh.
  assert (Hin : ∀ z, 1 <= z <= Z.of_nat n → In z (Z.of_nat <$> seq 1 n)).
  { intros z Hz. apply list_elem_of_In, list_elem_of_fmap.
    exists (Z.to_nat z). split; [lia|].
    apply list_elem_of_In, in_seq. lia. }
  unfold bands_agree in Hall. simpl in Hall.
  rewrite forallb_forall in Hall. specialize (Hall w (Hin w Hw)).
  rewrite forallb_forall in Hall. specialize (Hall h (Hin h Hh)).
  by apply Bool.eqb_prop.
Qed.

Lemma bands_agree_2048 : bands_agree 2048 = true.
Proof. vm_compute. reflexivity. Qed.

(** For sides up to 2048 pixels the binary64 test decides exactly
    [4/5 <= w/h <= 6/5]. *)
Lemma aspect_in_band_exact (w h : Z) :
  1 <= w <= 2048 → 1 <= h <= 2048 →
  aspect_in_band w h = exact_band w h.
Proof. apply (bands_agree_spec 2048), bands_agree_2048. Qed.

End Runs.

(** * Further properties of the two functions *)

(** ** Lists *)

Lemma filter_head_split {A} (P : A → Prop) `{∀ x, Decision (P x)}
    (l : list A) (x : A) (r : list A) :
  filter P l = x :: r →
  ∃ l1 l2, l = l1 ++ x :: l2 ∧ Forall (λ y, ¬ P y) l1 ∧ P x.
Proof.
  induction l as [|y l IH]; [done|].
  rewrite filter_cons. destruct (decide (P y)) as [Hy|Hy].
  - intros [= -> _]. exists [], l. repeat split; [constructor | exact Hy].
  - intros Hf. destruct (IH Hf) as (l1 & l2 & -> & Hl1 & Hx).
    exists (y :: l1), l2. repeat split; [by constructor | exact Hx].
Qed.

Lemma filter_none {A} (P : A → Prop) `{∀ x, Decision (P x)} (l : list A) :
  Forall (λ y, ¬ P y) l → filter P l = [].
Proof.
  induction 1 as [|y l Hy _ IH]; [reflexivity|].
  by rewrite filter_cons_False.
Qed.

Lemma lookup2_imap {A B} (f : nat → nat → A → B) (img : image A) (r k : nat) :
  (imap (λ r row, imap (f r) row) img !! r ≫= λ row, row !! k)
  = f r k <$> (img !! r ≫= λ row, row !! k).
Proof.
  rewrite list_lookup_imap. destruct (img !! r) as [row|]; simpl; [|reflexivity].
  apply list_lookup_imap.
Qed.

Lemma lookup2_fmap {A B} (f : A → B) (img : image A) (r k : nat) :
  (((λ row : list A, f <$> row) <$> img) !! r ≫= λ row, row !! k)
  = f <$> (img !! r ≫= λ row, row !! k).
Proof.
  rewrite list_lookup_fmap. destruct (img !! r) as [row|]; simpl; [|reflexivity].
  apply list_lookup_fmap.
Qed.

Lemma lookup2_np_zeros (sh : nat * nat) (r k : nat) (z : Z) :
  (np_zeros sh !! r ≫= λ row, row !! k) = Some z → z = 0.
Proof.
  unfold np_zeros. intros Hz.
  destruct (replicate sh.1 (replicate sh.2 0) !! r) as [row|] eqn:Hr; [|done].
  apply lookup_replicate in Hr as [-> _]. simpl in Hz.
  by apply lookup_replicate in Hz as [-> _].
Qed.

Lemma same_dims_refl {A} (a : image A) : same_dims a a.
Proof. unfold same_dims. by apply Forall2_same_length_lookup_2; [|congruence]. Qed.

Lemma same_dims_trans {A B C} (a : image A) (b : image B) (c : image C) :
  same_dims a b → same_dims b c → same_dims a c.
Proof.
  unfold same_dims. intros Hab. revert c.
  induction Hab as [|ra rb a b Hr _ IH]; intros c Hbc; inversion Hbc; subst;
    constructor; [congruence | by apply IH].
Qed.

Lemma same_dims_imap {A B} (f : nat → nat → A → B) (img : image A) :
  same_dims (imap (λ r row, imap (f r) row) img) img.
Proof.
  unfold same_dims. apply Forall2_same_length_lookup_2; [apply length_imap|].
  intros r row' row Hr' Hr. rewrite list_lookup_imap, Hr in Hr'.
  injection Hr' as <-. apply length_imap.
Qed.

Lemma same_dims_fmap {A B} (f : A → B) (img : image A) :
  same_dims ((λ row : list A, f <$> row) <$> img) img.
Proof.
  unfold same_dims. apply Forall2_fmap_l, Forall_Forall2_diag, Forall_true.
  intros row. apply length_fmap.
Qed.

Lemma pixel_at_bitwise_and_self (src mask : gray) (r k : nat) :
  pixel_at (bitwise_and src src mask) r k
  = if pixel_at mask r k =? 0 then 0 else pixel_at src r k.
Proof.
  unfold bitwise_and.
  rewrite (pixel_at_imap (λ r k p, if pixel_at mask r k =? 0 then 0
                                    else Z.land p (pixel_at src r k))).
  unfold pixel_at.
  destruct (src !! r ≫= λ row, row !! k) as [p|]; simpl.
  - by rewrite Z.land_diag.
  - by destruct (default 0 _ =? 0).
Qed.

Lemma descending_after {A} (key : A → Q) (before : list A) (x : A) (after : list A) :
  descending key (before ++ x :: after) →
  Forall (λ y, (key y <= key x)%Q) after.
Proof.
  unfold descending. induction before as [|b before IH]; simpl; intros Hs.
  - by apply StronglySorted_inv in Hs as [_ Hx].
  - apply StronglySorted_inv in Hs as [Hs _]. by apply IH.
Qed.

Section Further.
Context (L : cv_library).

(** X1. When some contour of the frame qualifies, [find_puzzle] returns,
    and the contour it accepts is a qualifying contour of greatest
    [contourArea]; of several qualifying contours of that same area it
    is the one [findContours] listed first. *)
Theorem find_puzzle_largest_qualifying (frame : Frame) :
  (∃ c, c ∈ found_contours L frame ∧ qualifies L c = true) →
  ∃ l1 c l2,
    found_contours L frame = l1 ++ c :: l2 ∧
    qualifies L c = true ∧
    (∀ c', c' ∈ l1 → qualifies L c' = true →
           (contourArea L c' < contourArea L c)%Q) ∧
    (∀ c', c' ∈ l2 → qualifies L c' = true →
           (contourArea L c' <= contourArea L c)%Q) ∧
    find_puzzle L frame
    = (Return (four_point_transform L (gray_of L frame) (approx_of L c)),
       drawn L frame c).
Proof.
  intros (c0 & Hc0 & Hq0).
  pose proof (sorted_reverse_perm (contourArea L) (found_contours L frame)) as Hperm.
  fold (sorted_contours L frame) in Hperm.
  destruct (first_qualifying L (sorted_contours L frame))
    as [Hnone|(before & c & after & Heq & Hb & Hc)].
  { rewrite <- Hperm in Hc0. rewrite Forall_forall in Hnone.
    rewrite (Hnone c0 Hc0) in Hq0. discriminate. }
  pose proof (sorted_reverse_descending (contourArea L) (found_contours L frame))
    as Hdesc.
  fold (sorted_contours L frame) in Hdesc. rewrite Heq in Hdesc.
  apply descending_after in Hdesc.
  assert (Hmax : ∀ c', c' ∈ found_contours L frame → qualifies L c' = true →
                       (contourArea L c' <= contourArea L c)%Q).
  { intros c' Hin Hq'. rewrite <- Hperm, Heq in Hin.
    apply elem_of_app in Hin as [Hin|Hin].
    - rewrite Forall_forall in Hb. rewrite (Hb c' Hin) in Hq'. discriminate.
    - apply elem_of_cons in Hin as [->|Hin]; [apply Qle_refl|].
      rewrite Forall_forall in Hdesc. by apply Hdesc. }
  set (P := λ a : contour,
         qualifies L a = true ∧
         Qeq_bool (contourArea L a) (contourArea L c) = true).
  assert (Hfilter : filter P (sorted_contours L frame)
                    = filter P (found_contours L frame)).
  { unfold P.
    rewrite <- !(list_filter_filter (λ a, qualifies L a = true)
                   (λ a, Qeq_bool (contourArea L a) (contourArea L c) = true)).
    unfold sorted_contours. by rewrite sorted_reverse_stable. }
  assert (Hhead : filter P (found_contours L frame)
                  = c :: filter P after).
  { rewrite <- Hfilter, Heq, filter_app.
    rewrite (filter_none P before).
    - rewrite filter_cons_True; [reflexivity|].
      split; [exact Hc|]. apply Qeq_bool_iff, Qeq_refl.
    - eapply Forall_impl; [exact Hb|]. simpl. intros a Ha [Hqa _]. congruence. }
  apply filter_head_split in Hhead as (l1 & l2 & Hfound & Hl1 & _).
  exists l1, c, l2. split; [exact Hfound|]. split; [exact Hc|].
  split; [|split].
  - intros c' Hin Hq'.
    assert (Hle : (contourArea L c' <= contourArea L c)%Q).
    { apply Hmax; [|exact Hq']. rewrite Hfound. apply elem_of_app. by left. }
    apply Qle_lteq in Hle as [Hlt|Heqa]; [exact Hlt|].
    rewrite Forall_forall in Hl1. destruct (Hl1 c' Hin).
    split; [exact Hq'|]. by apply Qeq_bool_iff.
  - intros c' Hin Hq'. apply Hmax; [|exact Hq'].
    rewrite Hfound. apply elem_of_app. right. by right.
  - by eapply find_puzzle_found.
Qed.

(** X2. Whatever the outcome, the frame keeps its dimensions, and each
    of its pixels either keeps its value or becomes (0, 255, 0). *)
Theorem find_puzzle_frame_pixels (frame : Frame) :
  same_dims (find_puzzle L frame).2 frame ∧
  ∀ r k,
    ((find_puzzle L frame).2 !! r ≫= λ row, row !! k)
    = (frame !! r ≫= λ row, row !! k)
    ∨ (is_Some (frame !! r ≫= λ row, row !! k) ∧
       ((find_puzzle L frame).2 !! r ≫= λ row, row !! k) = Some (0, 255, 0)).
Proof.
  destruct (first_qualifying L (sorted_contours L frame))
    as [Hnone|(before & c & after & Heq & Hb & Hc)].
  - rewrite find_puzzle_unfold, find_puzzle_loop_none by exact Hnone. simpl.
    split; [apply same_dims_refl | by left].
  - rewrite (find_puzzle_found L frame before c after) by assumption. simpl.
    unfold drawn, drawContours. split; [apply same_dims_imap|].
    intros r k.
    rewrite (lookup2_imap (λ r k p,
               if contour_raster L [approx_of L c] (-1) 2 r k
               then (0, 255, 0) else p)).
    destruct (frame !! r ≫= λ row, row !! k) as [p|]; simpl; [|by left].
    destruct (contour_raster L _ _ _ r k); [right | left]; eauto.
Qed.

(** X3. A mask returned by [extract_digit] has the dimensions of the
    cell: as many rows, each as long; it is a matrix when the cell is. *)
Theorem extract_digit_mask_dims (cell digit : gray) (empty : bool)
    (cell' : gray) :
  extract_digit L cell = (Return (Some digit, empty), cell') →
  same_dims digit cell ∧ (rectangular cell → rectangular digit).
Proof.
  rewrite extract_digit_unfold.
  destruct (cell_contours L cell) as [|c0 rest]; [discriminate|].
  intros [= <- _ _]. split.
  - unfold bitwise_and. eapply same_dims_trans; [apply same_dims_imap|].
    unfold cell_thresh, clear_border.
    eapply same_dims_trans; [apply same_dims_imap|].
    unfold threshold. simpl. apply same_dims_fmap.
  - intros Hrect. unfold bitwise_and.
    apply (rectangular_imap (λ r k p,
             if pixel_at (filled_mask L cell _) r k =? 0 then 0
             else Z.land p (pixel_at (cell_thresh L cell) r k))).
    by apply rectangular_cell_thresh.
Qed.

(** X4. A non-zero pixel of a returned mask is 255 and lies where the
    cell is not brighter than Otsu's level, outside the components
    cleared at the border, and on the filled raster of one of the
    contours found. *)
Theorem extract_digit_foreground (cell digit : gray) (empty : bool)
    (cell' : gray) (r k : nat) :
  extract_digit L cell = (Return (Some digit, empty), cell') →
  pixel_at digit r k ≠ 0 →
  pixel_at digit r k = 255 ∧
  (∃ p, (cell !! r ≫= λ row, row !! k) = Some p ∧ p <= otsu_level L cell) ∧
  border_component L
    (threshold L cell 0 255 (Z.lor THRESH_BINARY_INV THRESH_OTSU)).2 r k = false ∧
  ∃ c, c ∈ cell_contours L cell ∧ contour_raster L [c] (-1) (-1) r k = true.
Proof.
  rewrite extract_digit_unfold.
  destruct (cell_contours L cell) as [|c0 rest] eqn:Hcnts; [discriminate|].
  intros [= <- _ _]. simpl.
  set (c := max_from (contourArea L) c0 rest).
  rewrite pixel_at_bitwise_and_self.
  destruct (Z.eqb_spec (pixel_at (filled_mask L cell c) r k) 0) as [|Hmask];
    [done|].
  unfold pixel_at at 1 2.
  destruct (cell_thresh L cell !! r ≫= λ row, row !! k) as [p'|] eqn:HT;
    simpl; [|done].
  intros Hp'.
  (* the mask *)
  unfold filled_mask, drawContours in Hmask.
  rewrite (pixel_at_imap (λ r k p, if contour_raster L [c] (-1) (-1) r k
                                    then 255 else p)) in Hmask.
  assert (Hraster : contour_raster L [c] (-1) (-1) r k = true).
  { destruct (np_zeros _ !! r ≫= λ row, row !! k) as [z|] eqn:Hz; [|done].
    apply lookup2_np_zeros in Hz as ->.
    by destruct (contour_raster L [c] (-1) (-1) r k). }
  (* the cleared image *)
  unfold cell_thresh, clear_border in HT.
  rewrite (lookup2_imap (λ r k p, if border_component L _ r k then 0 else p))
    in HT.
  set (T0 := (threshold L cell 0 255 (Z.lor THRESH_BINARY_INV THRESH_OTSU)).2)
    in *.
  destruct (T0 !! r ≫= λ row, row !! k) as [p0|] eqn:HT0; [|done].
  simpl in HT.
  destruct (border_component L T0 r k) eqn:Hborder; [congruence|].
  injection HT as ->.
  (* the thresholded image *)
  unfold T0, threshold in HT0. simpl in HT0.
  rewrite lookup2_fmap in HT0.
  destruct (cell !! r ≫= λ row, row !! k) as [p|] eqn:Hcell; [|done].
  simpl in HT0. injection HT0 as <-.
  assert (Hpix : threshold_pixel (Z.lor THRESH_BINARY_INV THRESH_OTSU)
                   (otsu_level L cell) 255 p = 255 ∧ p <= otsu_level L cell).
  { unfold threshold_pixel in *.
    change (Z.land (Z.lor THRESH_BINARY_INV THRESH_OTSU) 7) with 1 in *.
    destruct (Z.ltb_spec (otsu_level L cell) p); [done | by split]. }
  destruct Hpix as [Hpix Hle].
  split; [exact Hpix|]. split; [by exists p|]. split; [exact Hborder|].
  exists c. split; [|exact Hraster].
  apply (max_from_spec (contourArea L) c0 rest).
Qed.

(** X5. A cell whose thresholded foreground lies entirely in components
    on the border is classified empty: [clear_border] leaves no
    foreground, and a contour finder that finds nothing without
    foreground gives (None, True). *)
Theorem extract_digit_border_noise (cell : gray) :
  no_foreground_no_contours L →
  (∀ r row k p,
     (threshold L cell 0 255 (Z.lor THRESH_BINARY_INV THRESH_OTSU)).2 !! r
     = Some row →
     row !! k = Some p → p ≠ 0 →
     border_component L
       (threshold L cell 0 255 (Z.lor THRESH_BINARY_INV THRESH_OTSU)).2 r k
     = true) →
  extract_digit L cell = (Return (None, true), cell).
Proof.
  intros Hfc Hnoise. rewrite extract_digit_unfold.
  assert (cell_contours L cell = []) as ->; [|reflexivity].
  apply Hfc. unfold cell_thresh, clear_border.
  apply all_pixels_imap. intros r row k p Hr Hk.
  destruct (border_component L _ r k) eqn:Hborder; [reflexivity|].
  destruct (decide (p = 0)) as [->|Hp]; [reflexivity|].
  rewrite (Hnoise r row k p Hr Hk Hp) in Hborder. discriminate.
Qed.

(** X6. For bounding boxes up to 2048 pixels a side, a contour passes
    the tests of the loop exactly when its approximation has 4 vertices
    and its box has [w > 45], [h > 45] and [4 h <= 5 w <= 6 h] in
    integers: the float comparisons lose nothing, both ends of the band
    included. *)
Theorem qualifies_exact (c : contour) :
  (bbox_size L c).1 <= 2048 → (bbox_size L c).2 <= 2048 →
  qualifies L c = true ↔
  length (approx_of L c) = 4%nat ∧
  45 < (bbox_size L c).1 ∧ 45 < (bbox_size L c).2 ∧
  4 * (bbox_size L c).2 <= 5 * (bbox_size L c).1 ∧
  5 * (bbox_size L c).1 <= 6 * (bbox_size L c).2.
Proof.
  intros Hw Hh. rewrite qualifies_spec.
  destruct (bbox_size L c) as [w h]. simpl in *.
  split.
  - intros (H4 & Hw' & Hh' & Hband).
    rewrite (bands_agree_spec 2048 w h bands_agree_2048) in Hband by lia.
    unfold Examples.exact_band in Hband. lia.
  - intros (H4 & Hw' & Hh' & Hlo & Hhi).
    rewrite (bands_agree_spec 2048 w h bands_agree_2048) by lia.
    unfold Examples.exact_band. repeat split; try assumption.
    apply andb_true_iff. lia.
Qed.

End Further.

Section FurtherRuns.
Import Examples.

Lemma find_puzzle_largest_qualifying_witness :
  ∃ l1 c l2,
    found_contours (Toy.reporting tied_contours) plain_frame = l1 ++ c :: l2 ∧
    qualifies (Toy.reporting tied_contours) c = true ∧
    (∀ c', c' ∈ l1 → qualifies (Toy.reporting tied_contours) c' = true →
           (contourArea (Toy.reporting tied_contours) c'
            < contourArea (Toy.reporting tied_contours) c)%Q) ∧
    (∀ c', c' ∈ l2 → qualifies (Toy.reporting tied_contours) c' = true →
           (contourArea (Toy.reporting tied_contours) c'
            <= contourArea (Toy.reporting tied_contours) c)%Q) ∧
    find_puzzle (Toy.reporting tied_contours) plain_frame
    = (Return (four_point_transform (Toy.reporting tied_contours)
                 (gray_of (Toy.reporting tied_contours) plain_frame)
                 (approx_of (Toy.reporting tied_contours) c)),
       drawn (Toy.reporting tied_contours) plain_frame c).
Proof.
  apply (find_puzzle_largest_qualifying (Toy.reporting tied_contours) plain_frame).
  exists square100. split; [|vm_compute; reflexivity].
  change (square100 ∈ tied_contours). unfold tied_contours.
  do 2 right. left.
Defined.

Lemma extract_digit_mask_dims_witness :
  same_dims blob_digit blob_cell ∧ (rectangular blob_cell → rectangular blob_digit).
Proof.
  apply (extract_digit_mask_dims Toy.lib blob_cell blob_digit false blob_cell).
  vm_compute; reflexivity.
Defined.

Lemma extract_digit_foreground_witness :
  pixel_at blob_digit 2 3 = 255 ∧
  (∃ p, (blob_cell !! 2%nat ≫= λ row, row !! 3%nat) = Some p ∧
        p <= otsu_level Toy.lib blob_cell) ∧
  border_component Toy.lib
    (threshold Toy.lib blob_cell 0 255
       (Z.lor THRESH_BINARY_INV THRESH_OTSU)).2 2 3 = false ∧
  ∃ c, c ∈ cell_contours Toy.lib blob_cell ∧
       contour_raster Toy.lib [c] (-1) (-1) 2 3 = true.
Proof.
  apply (extract_digit_foreground Toy.lib blob_cell blob_digit false blob_cell 2 3).
  - vm_compute; reflexivity.
  - vm_compute. discriminate.
Defined.

Lemma extract_digit_border_noise_witness :
  extract_digit Toy.lib border_stroke_cell
  = (Return (None, true), border_stroke_cell).
Proof.
  apply (extract_digit_border_noise Toy.lib border_stroke_cell).
  - exact ToyFacts.lib_no_foreground_no_contours.
  - intros r row k p Hr Hk Hp.
    destruct r as [|[|[|[|r]]]]; vm_compute in Hr; simplify_eq;
      destruct k as [|[|[|[|k]]]]; vm_compute in Hk; simplify_eq;
      try done; vm_compute; reflexivity.
Defined.

Lemma qualifies_exact_witness :
  qualifies Toy.lib square100 = true ↔
  length (approx_of Toy.lib square100) = 4%nat ∧
  45 < (bbox_size Toy.lib square100).1 ∧ 45 < (bbox_size Toy.lib square100).2 ∧
  4 * (bbox_size Toy.lib square100).2 <= 5 * (bbox_size Toy.lib square100).1 ∧
  5 * (bbox_size Toy.lib square100).1 <= 6 * (bbox_size Toy.lib square100).2.
Proof.
  apply (qualifies_exact Toy.lib square100); vm_compute; discriminate.
Defined.

End FurtherRuns.
